(** * Deterministic résumé / job-description scoring
    ([src/app/resume_analysis.py], lines 145-217)

    The module computes three key figures for a résumé and a job
    description: a TF-IDF cosine (delegated to scikit-learn when it is
    installed), the Jaccard overlap of the skills detected in the two
    texts, and a weighted hybrid of both.

    Modelling choices.
    - A Python [str] is a [string]; a character stands for the code
      point of the same number, so the texts covered are the ones whose
      code points are below 256.  The character classes ([\w], [\s],
      [str.lower]) are Python's on that range.
    - A Python [set] of strings is a [gset string].
    - A Python [float] is a rational number; the arithmetic is exact
      (binary64 rounding is not modelled).  The program's value can
      differ from the model's in the last place: it evaluates
      [0.65 * 0.9 + 0.35 * 0.9] to [0.9000000000000001], the model to
      [0.9].  The theorems on numbers are the ones rounding preserves:
      bounds, monotonicity, the exact values 0, 1 and 0.175.
    - Raising is explicit: an operation that can raise returns a
      [result], and [try ... except Exception] is [try_except]. *)

(** Beyond the scoring core the file models the callers and the
    neighbours of that code: the percentages of the match page
    ([src/app/main.py], lines 173-176), the interview coach of
    [src/app/resume_analysis.py] (lines 223-370: the tolerant JSON
    decoder, the question generator with its two module-level lists,
    the heuristic scores) and the practice session of the page
    ([src/app/main.py], lines 237-340).  The chat model, [json.loads]
    and [random.shuffle] are parameters. *)

From Stdlib Require Import Ascii String NArith QArith Qround Lqa.
From stdpp Require Import gmap strings.

Local Open Scope string_scope.

(** ** Characters *)

Definition code (c : ascii) : N := N_of_ascii c.

Definition between (lo hi : N) (c : ascii) : bool :=
  ((lo <=? code c) && (code c <=? hi))%N.

(** [\s] on a [str] pattern, which is also the separator class of
    [str.split()]. *)
Definition is_space (c : ascii) : bool :=
  between 9 13 c || between 28 32 c || (code c =? 133)%N || (code c =? 160)%N.

(** [\w] on a [str] pattern: alphanumeric code points and the underscore. *)
Definition is_word (c : ascii) : bool :=
  between 48 57 c || between 65 90 c || (code c =? 95)%N || between 97 122 c
  || (code c =? 170)%N || between 178 179 c || (code c =? 181)%N
  || between 185 186 c || between 188 190 c
  || between 192 214 c || between 216 246 c || between 248 255 c.

Definition is_upper (c : ascii) : bool :=
  between 65 90 c || between 192 214 c || between 216 222 c.

Definition lower_char (c : ascii) : ascii :=
  if is_upper c then ascii_of_N (code c + 32) else c.

(** [str.lower()] *)
Fixpoint lower (s : string) : string :=
  match s with
  | EmptyString => EmptyString
  | String c r => String (lower_char c) (lower r)
  end.

(** ** The regular expressions the module uses *)

(** [rf"\b{re.escape(kw)}\b"] compiles to a sequence of two kinds of
    items: the zero-width word boundary and literal characters
    ([re.escape] makes every character of the keyword a literal). *)
Inductive atom : Type :=
  | Bnd
  | Lit (c : ascii).

Definition re_escape (kw : string) : list atom :=
  Lit <$> list_ascii_of_string kw.

Definition kw_pattern (kw : string) : list atom :=
  Bnd :: re_escape kw ++ [Bnd].

Definition word_opt (o : option ascii) : bool :=
  match o with
  | Some c => is_word c
  | None => false
  end.

Definition first_char (s : string) : option ascii :=
  match s with
  | EmptyString => None
  | String c _ => Some c
  end.

(** [\b]: exactly one of the two neighbours is a word character; the
    outside of the text counts as a non-word character. *)
Definition at_boundary (prev : option ascii) (rest : string) : bool :=
  xorb (word_opt prev) (word_opt (first_char rest)).

(** Match the pattern at the current position: [prev] is the character
    before it, [s] the text from it. *)
Fixpoint match_here (pat : list atom) (prev : option ascii) (s : string) : bool :=
  match pat with
  | [] => true
  | Bnd :: p => at_boundary prev s && match_here p prev s
  | Lit c :: p =>
      match s with
      | String d r => if Ascii.eqb c d then match_here p (Some d) r else false
      | EmptyString => false
      end
  end.

Fixpoint search_from (pat : list atom) (prev : option ascii) (s : string) : bool :=
  match_here pat prev s ||
  match s with
  | String c r => search_from pat (Some c) r
  | EmptyString => false
  end.

(** [re.search(pat, s)] as a truth value. *)
Definition re_search (pat : list atom) (s : string) : bool :=
  search_from pat None s.

(** ** Text normalisation *)

(** One character of [re.sub(r"[^a-z0-9+\s]", " ", t)]. *)
Definition keep_char (c : ascii) : bool :=
  between 97 122 c || between 48 57 c || (code c =? 43)%N || is_space c.

Fixpoint sub_other (s : string) : string :=
  match s with
  | EmptyString => EmptyString
  | String c r => String (if keep_char c then c else " "%char) (sub_other r)
  end.

Definition flush (cur : string) : list string :=
  match cur with
  | EmptyString => []
  | _ => [cur]
  end.

(** [t.split()]: the maximal runs of non-space characters. *)
Fixpoint split_from (cur : string) (s : string) : list string :=
  match s with
  | EmptyString => flush cur
  | String c r =>
      if is_space c then flush cur ++ split_from EmptyString r
      else split_from (cur ++ String c EmptyString) r
  end.

Definition str_split (s : string) : list string := split_from EmptyString s.

(** [" ".join(ws)] *)
Fixpoint str_join (ws : list string) : string :=
  match ws with
  | [] => EmptyString
  | [w] => w
  | w :: rest => w ++ " " ++ str_join rest
  end.

Definition _clean_text (t : string) : string :=
  let t := lower t in
  let t := sub_other t in
  str_join (str_split t).

(** ** Skill extraction *)

Definition DEFAULT_SKILLS : list string :=
  [ "python"; "java"; "c"; "c++"; "html"; "css"; "javascript"; "typescript"; "react"; "node";
    "sql"; "postgres"; "postgresql"; "mysql"; "mongodb";
    "aws"; "gcp"; "azure"; "docker"; "kubernetes";
    "linux"; "git"; "bash"; "powershell";
    "pandas"; "numpy"; "scikit-learn"; "sklearn"; "tensorflow"; "pytorch";
    "tableau"; "power bi"; "excel";
    "airflow"; "dbt"; "spark"; "hadoop"; "kafka"; "etl"; "mlops"; "ci/cd" ].

(** [extra] is [None] for Python's [None]; [if extra:] holds for a list
    that is not empty. *)
Definition _extract_skills (text : string) (extra : option (list string)) : gset string :=
  let corpus := lower text in
  let keys : gset string := list_to_set DEFAULT_SKILLS in
  let keys : gset string :=
    match extra with
    | None | Some [] => keys
    | Some ks => keys ∪ list_to_set (lower <$> ks)
    end in
  filter (λ kw, re_search (kw_pattern kw) corpus = true) keys.

(** ** Exceptions *)

Inductive exn : Type :=
  | ZeroDivisionError
  | ValueError
  | OtherException.

Inductive result (A : Type) : Type :=
  | Ok (a : A)
  | Raise (e : exn).

Arguments Ok {A} a.
Arguments Raise {A} e.

#[global] Instance result_ret : MRet result := @Ok.

#[global] Instance result_bind : MBind result := λ A B k m,
  match m with
  | Ok a => k a
  | Raise e => Raise e
  end.

(** [try: v = body  except Exception: v = handler] *)
Definition try_except {A : Type} (body : result A) (handler : A) : A :=
  match body with
  | Ok a => a
  | Raise _ => handler
  end.

(** [a / b] on Python integers. *)
Definition truediv (a b : Z) : result Q :=
  if (b =? 0)%Z then Raise ZeroDivisionError else Ok (inject_Z a / inject_Z b)%Q.

(** [len] of a set. *)
Definition len (s : gset string) : Z := Z.of_nat (size s).

(** ** The score report *)

Record report : Type := Report {
  cosine : Q;
  skills_overlap : Q;
  hybrid : Q;
  resume_skills : gset string;
  jd_skills : gset string
}.

(** Two reports with the same values: rationals are compared as
    numbers, not as fractions. *)
Definition report_eq (r r' : report) : Prop :=
  (cosine r == cosine r')%Q ∧
  (skills_overlap r == skills_overlap r')%Q ∧
  (hybrid r == hybrid r')%Q ∧
  resume_skills r = resume_skills r' ∧
  jd_skills r = jd_skills r'.

(** The weighting of lines 205-209, in exact arithmetic. *)
Definition hybrid_score (has_sk : bool) (cos jacc : Q) : Q :=
  if has_sk then (0.65 * cos + 0.35 * jacc)%Q
  else (0.35 * jacc)%Q.

Section Scoring.

(** Whether scikit-learn could be imported (lines 19-24). *)
Variable _HAS_SK : bool.

(** Lines 190-192: fit a [TfidfVectorizer] on the two cleaned texts and
    take the cosine of the two rows.  scikit-learn is not part of the
    repository; the call either returns a number or raises (an empty
    vocabulary raises [ValueError]). *)
Variable tfidf_cosine : string -> string -> result Q.

Definition compute_nlp_scores (resume_text jd_text : string)
    (extra_skill_keywords : option (list string)) : result report :=
  let cos :=
    if _HAS_SK then
      try_except (tfidf_cosine (_clean_text resume_text) (_clean_text jd_text)) 0%Q
    else 0%Q in
  let rs := _extract_skills resume_text extra_skill_keywords in
  let js := _extract_skills jd_text extra_skill_keywords in
  let union := Z.max 1 (len (rs ∪ js)) in
  jacc ← truediv (len (rs ∩ js)) union;
  let hybrid := hybrid_score _HAS_SK cos jacc in
  Ok {| cosine := cos;
        skills_overlap := jacc;
        hybrid := hybrid;
        resume_skills := rs;
        jd_skills := js |}.

End Scoring.

(** What the documentation promises of the scikit-learn call: a cosine
    of two vectors with non-negative entries. *)
Definition cosine_in_range (backend : string -> string -> result Q) : Prop :=
  ∀ a b c, backend a b = Ok c → (0 <= c <= 1)%Q.

(** A stand-in for the scikit-learn call, to run the model: no
    vocabulary raises, equal texts are parallel, other texts are taken
    as orthogonal. *)
Definition sample_backend (a b : string) : result Q :=
  if String.eqb a "" && String.eqb b "" then Raise ValueError
  else if String.eqb a b then Ok 1%Q
  else Ok 0%Q.

(** The character before the position reached after reading [s], when
    [prev] was the character before [s]. *)
Fixpoint last_char (prev : option ascii) (s : string) : option ascii :=
  match s with
  | EmptyString => prev
  | String c r => last_char (Some c) r
  end.

(** ** The fields of the report, named

    The two quantities [compute_nlp_scores] binds to [jacc] and [cos],
    as functions of its inputs; the lemmas below state the report with
    them. *)

Definition jaccard (rs js : gset string) : Q :=
  inject_Z (len (rs ∩ js)) / inject_Z (Z.max 1 (len (rs ∪ js))).

Definition engine_cosine (has_sk : bool) (backend : string → string → result Q)
    (resume_text jd_text : string) : Q :=
  if has_sk then
    try_except (backend (_clean_text resume_text) (_clean_text jd_text)) 0%Q
  else 0%Q.

(** ** The percentages shown on the match page
    ([src/app/main.py], lines 173-176) *)

(** [round(x)] on a float: the nearest integer, the even one on a tie. *)
Definition py_round (x : Q) : Z :=
  let f := Qfloor x in
  match (x - inject_Z f ?= 1 # 2)%Q with
  | Lt => f
  | Gt => (f + 1)%Z
  | Eq => if Z.even f then f else (f + 1)%Z
  end.

(** [nlp = compute_nlp_scores(resume_text, jd_text)] followed by
    [int(round(nlp[k] * 100))] for the three scores: [cos_pct],
    [ovl_pct] and [hyb_pct].  The product is the exact one; where the
    binary64 product falls on the other side of a half the program
    shows the neighbouring integer (3 for the model's 4 at a hybrid of
    [0.35 * 0.1]).  The bounds proved of the percentages hold for
    both. *)
Definition kpi_percentages (has_sk : bool) (backend : string → string → result Q)
    (resume_text jd_text : string) : result (Z * Z * Z) :=
  nlp ← compute_nlp_scores has_sk backend resume_text jd_text None;
  let cos_pct := py_round (cosine nlp * 100) in
  let ovl_pct := py_round (skills_overlap nlp * 100) in
  let hyb_pct := py_round (hybrid nlp * 100) in
  Ok (cos_pct, ovl_pct, hyb_pct).

(** ** Interview coach ([src/app/resume_analysis.py], lines 223-370) *)

(** Values of [json.loads]. *)
#[warnings="-register-all"] Inductive json : Type :=
  | JNull
  | JBool (b : bool)
  | JInt (n : Z)
  | JFloat (q : Q)
  | JStr (s : string)
  | JList (xs : list json)
  | JObj (kvs : list (string * json)).

(** [text.find(c)] and [text.rfind(c)] for a one-character [c]: the
    first and the last index of [c], or -1. *)
Fixpoint index_of (c : ascii) (s : string) : option nat :=
  match s with
  | EmptyString => None
  | String d r => if Ascii.eqb c d then Some 0 else S <$> index_of c r
  end.

Fixpoint rindex_of (c : ascii) (s : string) : option nat :=
  match s with
  | EmptyString => None
  | String d r =>
      match rindex_of c r with
      | Some i => Some (S i)
      | None => if Ascii.eqb c d then Some 0 else None
      end
  end.

Definition find (c : ascii) (s : string) : Z :=
  from_option Z.of_nat (-1)%Z (index_of c s).

Definition rfind (c : ascii) (s : string) : Z :=
  from_option Z.of_nat (-1)%Z (rindex_of c s).

Fixpoint str_drop (n : nat) (s : string) : string :=
  match n, s with
  | S n, String _ r => str_drop n r
  | _, _ => s
  end.

Fixpoint str_take (n : nat) (s : string) : string :=
  match n, s with
  | S n, String c r => String c (str_take n r)
  | _, _ => EmptyString
  end.

(** [text[lo:hi]] for [0 <= lo <= hi], the only case the module uses. *)
Definition slice (lo hi : Z) (s : string) : string :=
  str_take (Z.to_nat (hi - lo)) (str_drop (Z.to_nat lo) s).

(** [l[:n]]: the first [n] items, or all but the last [-n] when [n] is
    negative. *)
Definition py_take {A : Type} (n : Z) (l : list A) : list A :=
  if (0 <=? n)%Z then take (Z.to_nat n) l
  else take (length l - Z.to_nat (- n)) l.

(** [k in s] on strings, and [any(P(ch) for ch in s)]. *)
Fixpoint str_in (k s : string) : bool :=
  String.prefix k s ||
  match s with
  | String _ r => str_in k r
  | EmptyString => false
  end.

Fixpoint str_exists (P : ascii → bool) (s : string) : bool :=
  match s with
  | EmptyString => false
  | String c r => P c || str_exists P r
  end.

(** [str.isdigit] *)
Definition isdigit (c : ascii) : bool :=
  between 48 57 c || between 178 179 c || (code c =? 185)%N.

(** [k in data] on a decoded value: a key of a dict, an item of a list,
    a part of a string; a [TypeError] on the other values. *)
Definition py_in (k : string) (data : json) : result bool :=
  match data with
  | JObj kvs => Ok (bool_decide (k ∈ kvs.*1))
  | JList xs =>
      Ok (existsb (λ x, match x with JStr s => String.eqb s k | _ => false end) xs)
  | JStr s => Ok (str_in k s)
  | _ => Raise OtherException
  end.

(** [isinstance(parsed, list) and all(isinstance(x, str) for x in parsed)],
    with the strings when it holds. *)
Definition as_str_list (parsed : json) : option (list string) :=
  match parsed with
  | JList xs => mapM (λ x, match x with JStr s => Some s | _ => None end) xs
  | _ => None
  end.

Definition _BEHAVIORAL_QS : list string :=
  [ "Tell me about a time you had to learn something quickly.";
    "Describe a conflict on a team and how you resolved it.";
    "Tell me about a time you made a mistake. What did you learn?";
    "Give an example of a time you worked under a tight deadline.";
    "Tell me about a time you influenced a decision without authority.";
    "Describe a time you handled ambiguous requirements.";
    "Tell me about a time you prioritized tasks with limited resources." ].

Definition _TECH_QS_GENERAL : list string :=
  [ "Explain Big-O of an algorithm you recently optimized.";
    "What data structure would you use to implement an LRU cache and why?";
    "How would you design a rate limiter for an API? Outline components and trade-offs.";
    "Explain ACID vs BASE and when eventual consistency is acceptable.";
    "Given a large log file, how would you find the top K frequent entries?";
    "How do you handle memory leaks in Python? Give examples/tools.";
    "What is the difference between multiprocessing and multithreading in Python?" ].

(** The two module-level lists: [random.shuffle] reorders them in place,
    so they are state. *)
Record banks : Type := Banks {
  behavioral : list string;
  technical : list string
}.

Definition initial_banks : banks :=
  {| behavioral := _BEHAVIORAL_QS; technical := _TECH_QS_GENERAL |}.

(** The heuristic scores of the fallback of [critique_interview_answer]
    (lines 346-356). *)
Record scores : Type := Scores {
  clarity : Z;
  structure : Z;
  technical_depth : Z;
  impact : Z;
  conciseness : Z
}.

Definition heuristic_scores (answer : string) : scores :=
  let length := Z.of_nat (List.length (str_split answer)) in
  let has_numbers := str_exists isdigit answer in
  let star_hits :=
    Z.of_nat (List.length
      (filter (λ k, str_in k (lower answer) = true)
              ["situation"; "task"; "action"; "result"])) in
  {| clarity := if (40 <=? length)%Z then 3 else 2;
     structure := Z.min 5 (2 + star_hits);
     technical_depth := 3 + (if has_numbers then 1 else 0);
     impact := 3 + (if has_numbers then 1 else 0);
     conciseness :=
       if (60 <=? length)%Z && (length <=? 220)%Z then 4
       else if (length <? 60)%Z then 3 else 2 |}.

(** What [critique_interview_answer] returns: the decoded reply of the
    model as it is, or the fallback dict, of which the [scores] entry is
    modelled (the three other entries are constant texts). *)
Inductive feedback : Type :=
  | ModelFeedback (data : json)
  | HeuristicFeedback (s : scores).

Section Coach.

(** [json.loads], of the standard library: a value or an exception. *)
Variable json_loads : string → result json.

(** The reply of the chat model to the prompt of the call,
    [response["message"]["content"]], or the exception of the call
    (Ollama missing, no such key). *)
Variable llm_reply : result string.

(** The order [random.shuffle] leaves a list in. *)
Variable shuffle : list string → list string.

(** [None] is [JNull]. *)
Definition _safe_json_extract_list (text : string) : json :=
  match json_loads text with
  | Ok v => v
  | Raise _ =>
      try_except
        (let s := find "[" text in
         let e := rfind "]" text in
         if negb (s =? -1)%Z && negb (e =? -1)%Z && (e >? s)%Z
         then json_loads (slice s (e + 1) text)
         else Ok JNull)
        JNull
  end.

Definition generate_interview_questions (st : banks) (mode : string) (n : Z)
    : list string * banks :=
  let attempt : result (option (list string)) :=
    raw ← llm_reply;
    Ok (as_str_list (_safe_json_extract_list raw)) in
  match attempt with
  | Ok (Some parsed) => (py_take n parsed, st)
  | _ =>
      if String.prefix "behav" (lower mode) then
        let bank := shuffle (behavioral st) in
        (py_take n bank, {| behavioral := bank; technical := technical st |})
      else
        let bank := shuffle (technical st) in
        (py_take n bank, {| behavioral := behavioral st; technical := bank |})
  end.

Definition critique_interview_answer (answer : string) : feedback :=
  let attempt : result (option json) :=
    raw ← llm_reply;
    data ← json_loads raw;
    has_scores ← py_in "scores" data;
    if (has_scores : bool) then
      has_improved ← py_in "improved_answer" data;
      Ok (if (has_improved : bool) then Some data else None)
    else Ok None in
  match attempt with
  | Ok (Some data) => ModelFeedback data
  | _ => HeuristicFeedback (heuristic_scores answer)
  end.

End Coach.

(** The states of the two question lists after any number of calls,
    each call with its own reply of the model and its own shuffle, a
    shuffle being a rearrangement. *)
Inductive reachable : banks → Prop :=
  | reachable_initial : reachable initial_banks
  | reachable_call st json_loads llm_reply shuffle mode n :
      reachable st →
      (∀ l, shuffle l ≡ₚ l) →
      reachable
        (generate_interview_questions json_loads llm_reply shuffle st mode n).2.

(** The list the fallback of [generate_interview_questions] draws from. *)
Definition bank_of (mode : string) : list string :=
  if String.prefix "behav" (lower mode) then _BEHAVIORAL_QS else _TECH_QS_GENERAL.

(** Stand-ins to run the interview coach: a decoder that knows three
    texts (a list of one question, the empty list, [null]), and the
    text of the list of one question. *)
Definition quote : string := String (ascii_of_nat 34) EmptyString.

Definition one_question_json : string :=
  "[" ++ quote ++ "Why this role?" ++ quote ++ "]".

Definition sample_json_loads (s : string) : result json :=
  if String.eqb s one_question_json then Ok (JList [JStr "Why this role?"])
  else if String.eqb s "[]" then Ok (JList [])
  else if String.eqb s "null" then Ok JNull
  else Raise ValueError.

(** ** Predicates on texts, for the statements below *)

Fixpoint str_forall (P : ascii → bool) (s : string) : bool :=
  match s with
  | EmptyString => true
  | String c r => P c && str_forall P r
  end.

(** The characters [_clean_text] lets through unchanged, the white space
    apart: [a-z], [0-9] and [+]. *)
Definition token_char (c : ascii) : bool :=
  between 97 122 c || between 48 57 c || (code c =? 43)%N.

(** [c] does not occur in [s]. *)
Definition absent (c : ascii) (s : string) : Prop :=
  str_forall (λ d, negb (Ascii.eqb c d)) s = true.

(** A word of a cleaned text: not empty, made of token characters. *)
Definition token (w : string) : Prop :=
  w ≠ "" ∧ str_forall token_char w = true.

(** The keyword set [_extract_skills] searches for: the default skills
    and the lower-cased extra keywords. *)
Definition catalog (extra : option (list string)) : gset string :=
  list_to_set DEFAULT_SKILLS ∪ list_to_set (lower <$> default [] extra).

(** An occurrence [pre ++ kw ++ post] of [kw] with a word boundary on
    each side. *)
Definition whole_word (pre kw post : string) : Prop :=
  at_boundary (last_char None pre) (kw ++ post) = true ∧
  at_boundary (last_char (last_char None pre) kw) post = true.

(** ** The practice session ([src/app/main.py], lines 237-340)

    [st.session_state.coach] holds the questions, the index of the one
    on display and the practice log.  A run of the script handles at
    most one button press, here an [event]; the module-level question
    lists of [resume_analysis] are part of the state, since generating
    questions may shuffle them. *)

Record coach : Type := Coach {
  questions : list string;
  idx : nat;
  records : list (string * string * feedback)
}.

Definition new_coach : coach :=
  {| questions := []; idx := 0; records := [] |}.

Inductive event : Type :=
  | Idle
  | Generate (llm_reply : result string) (shuffle : list string → list string)
      (mode : string) (num_q : Z)
  | Restart
  | GetFeedback (answer : string) (llm_reply : result string)
  | NextQuestion.

(** [qs[idx]] for [idx >= 0]: an [IndexError] beyond the end. *)
Definition item (qs : list string) (i : nat) : result string :=
  match qs !! i with
  | Some q => Ok q
  | None => Raise OtherException
  end.

Section Session.

Variable json_loads : string → result json.

(** The five questions of the last-resort list (lines 260-266); two of
    them have a character beyond code point 255, so the list is a
    parameter. *)
Variable hard_fallback : list string.

(** The state a run of the page leaves in [st.session_state] (and in
    the module-level question lists).  What the run writes to the page
    is not modelled: the rendering of the feedback (lines 309-329) reads
    the feedback and changes no state; when it raises, on a reply of the
    model that is not the dict it expects, the record appended just
    before stays.  A run stopped by an [IndexError] at [qs[idx]]
    (line 279) changes nothing. *)
Definition coach_run (st : coach * banks) (ev : event) : coach * banks :=
  let c := st.1 in
  let b := st.2 in
  match ev with
  | Generate llm_reply shuffle mode num_q =>
      let out := generate_interview_questions json_loads llm_reply shuffle b mode num_q in
      let qs := match out.1 with [] => py_take num_q hard_fallback | qs => qs end in
      ({| questions := qs; idx := 0; records := [] |}, out.2)
  | _ =>
      match questions c with
      | [] => st
      | _ =>
          match item (questions c) (idx c) with
          | Raise _ => st
          | Ok q =>
              match ev with
              | Restart => (new_coach, b)
              | GetFeedback answer llm_reply =>
                  if negb (str_forall is_space answer) then
                    let fb := critique_interview_answer json_loads llm_reply answer in
                    ({| questions := questions c;
                        idx := idx c;
                        records := records c ++ [(q, answer, fb)] |}, b)
                  else st
              | NextQuestion =>
                  if (Z.of_nat (idx c) <? Z.of_nat (length (questions c)) - 1)%Z
                  then ({| questions := questions c;
                           idx := idx c + 1;
                           records := records c |}, b)
                  else st
              | _ => st
              end
          end
      end
  end.

(** The states a session can be in: the initial one, and the ones a run
    leaves, whether the run completed or raised. *)
Inductive session : coach * banks → Prop :=
  | session_start : session (new_coach, initial_banks)
  | session_run st ev : session st → session (coach_run st ev).

End Session.

(** What every state of a session satisfies: the index is within the
    questions, and each record of the log is about a question at an
    index not beyond the current one. *)
Definition session_ok (st : coach * banks) : Prop :=
  (questions st.1 = [] ∨ (idx st.1 < length (questions st.1))%nat) ∧
  (∀ q a fb, (q, a, fb) ∈ records st.1 →
     ∃ i, (i ≤ idx st.1)%nat ∧ questions st.1 !! i = Some q).

(** ** Running the model *)

Example clean_text_ex : _clean_text "  Senior C++/Python   dev. " = "senior c++ python dev".
Proof. reflexivity. Qed.

Example search_ex : re_search (kw_pattern "java") "javascript" = false.
Proof. reflexivity. Qed.

Example search_cpp : re_search (kw_pattern "c++") "c++11" = true.
Proof. reflexivity. Qed.

Example extract_case_insensitive :
  _extract_skills "I use Python and AWS" None = {["python"; "aws"]}.
Proof. vm_compute. reflexivity. Qed.

Example extract_phrase :
  _extract_skills "I use Power BI daily" None = {["power bi"]}.
Proof. vm_compute. reflexivity. Qed.

Example extract_extra :
  _extract_skills "I know Rustlang" (Some ["Rustlang"]) = {["rustlang"]} ∧
  _extract_skills "I know Rustlang" None = ∅.
Proof. split; vm_compute; reflexivity. Qed.

Example end_to_end :
  ∃ r, compute_nlp_scores false sample_backend
         "Experienced Python and SQL developer with AWS deployment experience"
         "Looking for a Python developer with AWS and Docker skills" None = Ok r ∧
       resume_skills r = {["python"; "sql"; "aws"]} ∧
       jd_skills r = {["python"; "aws"; "docker"]} ∧
       (skills_overlap r == 0.5)%Q ∧
       (hybrid r == 0.175)%Q.
Proof.
  eexists. split; [vm_compute; reflexivity|]. cbn.
  split_and!; reflexivity.
Qed.


(** ** Skill extraction: membership *)

Lemma re_search_empty kw : re_search (kw_pattern kw) "" = false.
Proof. reflexivity. Qed.

Lemma lower_empty : lower "" = "".
Proof. reflexivity. Qed.

Lemma extract_skills_found kw text extra :
  kw ∈ _extract_skills text extra →
  re_search (kw_pattern kw) (lower text) = true.
Proof.
  unfold _extract_skills. rewrite elem_of_filter. tauto.
Qed.

Lemma elem_of_extract_skills_default kw text :
  kw ∈ _extract_skills text None ↔
  re_search (kw_pattern kw) (lower text) = true ∧ kw ∈ DEFAULT_SKILLS.
Proof.
  unfold _extract_skills. rewrite elem_of_filter, elem_of_list_to_set. tauto.
Qed.

Lemma extract_skills_empty_text extra : _extract_skills "" extra = ∅.
Proof.
  apply set_eq. intros kw. rewrite elem_of_empty. split; [|tauto].
  intros H%extract_skills_found.
  rewrite lower_empty, re_search_empty in H. discriminate.
Qed.

(** ** The Jaccard quotient *)

Lemma truediv_jaccard rs js :
  truediv (len (rs ∩ js)) (Z.max 1 (len (rs ∪ js))) = Ok (jaccard rs js).
Proof.
  unfold truediv, jaccard.
  destruct (Z.eqb_spec (Z.max 1 (len (rs ∪ js))) 0) as [E|_]; [lia|reflexivity].
Qed.



Lemma jaccard_comm rs js : jaccard rs js = jaccard js rs.
Proof.
  unfold jaccard.
  by rewrite (comm_L (∩) rs js), (comm_L (∪) rs js).
Qed.

(** ** The report, in closed form *)

Lemma compute_nlp_scores_ok has_sk backend a b extra :
  compute_nlp_scores has_sk backend a b extra =
  Ok {| cosine := engine_cosine has_sk backend a b;
        skills_overlap := jaccard (_extract_skills a extra) (_extract_skills b extra);
        hybrid := hybrid_score has_sk (engine_cosine has_sk backend a b)
                    (jaccard (_extract_skills a extra) (_extract_skills b extra));
        resume_skills := _extract_skills a extra;
        jd_skills := _extract_skills b extra |}.
Proof.
  unfold compute_nlp_scores. rewrite truediv_jaccard. reflexivity.
Qed.

(** Name the report a call returns and expose its fields. *)
Ltac report_of_call :=
  eexists; split; [apply compute_nlp_scores_ok|]; cbn.



(** ** The numeric fields *)



Lemma sample_backend_in_range : cosine_in_range sample_backend.
Proof.
  intros a b c. unfold sample_backend.
  destruct (_ && _); [discriminate|].
  destruct (String.eqb a b); intros [= <-]; split; discriminate.
Qed.

(** C2. [compute_nlp_scores] is total: for every pair of texts (the
    empty ones included), every optional list of extra keywords, either
    value of the availability flag and every behaviour of the
    scikit-learn call (raising included), it raises nothing and returns
    a report with its five fields, the two skill sets being the ones
    extracted from the two texts. *)
Theorem compute_nlp_scores_total has_sk backend resume_text jd_text extra :
  ∃ cos jacc hyb,
    compute_nlp_scores has_sk backend resume_text jd_text extra =
    Ok {| cosine := cos; skills_overlap := jacc; hybrid := hyb;
          resume_skills := _extract_skills resume_text extra;
          jd_skills := _extract_skills jd_text extra |}.
Proof.
  do 3 eexists. apply compute_nlp_scores_ok.
Qed.

(** C3. The hybrid field of every report is
    [0.65 * cosine + 0.35 * skills_overlap] when scikit-learn is
    available and [0.35 * skills_overlap] when it is not; the weighting
    applied to a cosine of 1 and an overlap of 0.5 without the engine is
    0.175. *)
Theorem hybrid_weighting :
  (∀ backend a b extra, ∃ r,
      compute_nlp_scores true backend a b extra = Ok r ∧
      (hybrid r == 0.65 * cosine r + 0.35 * skills_overlap r)%Q) ∧
  (∀ backend a b extra, ∃ r,
      compute_nlp_scores false backend a b extra = Ok r ∧
      (hybrid r == 0.35 * skills_overlap r)%Q) ∧
  (∀ c s, hybrid_score true c s == 0.65 * c + 0.35 * s)%Q ∧
  (∀ c s, hybrid_score false c s == 0.35 * s)%Q ∧
  (hybrid_score false 1 0.5 == 0.175)%Q.
Proof.
  split_and!.
  - intros. report_of_call. reflexivity.
  - intros. report_of_call. reflexivity.
  - intros. reflexivity.
  - intros. reflexivity.
  - reflexivity.
Qed.

(** C8. With the engine available the hybrid score does not decrease
    when the cosine grows nor when the overlap grows (on [0,1] and
    beyond). *)
Theorem hybrid_score_monotone (c1 c2 s1 s2 c s : Q) :
  (c1 <= c2)%Q → (s1 <= s2)%Q →
  (hybrid_score true c1 s <= hybrid_score true c2 s)%Q ∧
  (hybrid_score true c s1 <= hybrid_score true c s2)%Q.
Proof.
  intros Hc Hs. unfold hybrid_score. split; lra.
Qed.

Lemma hybrid_score_monotone_witness :
  (hybrid_score true 0.2 0.4 <= hybrid_score true 0.9 0.4)%Q ∧
  (hybrid_score true 1 0.25 <= hybrid_score true 1 0.5)%Q.
Proof.
  apply (hybrid_score_monotone 0.2 0.9 0.25 0.5 1 0.4); unfold Qle; simpl; lia.
Defined.

(** ** The skill fields *)

(** C7. On two empty texts the overlap is 0 (the quotient 0 / 1, the
    denominator being [max(1, 0)]) and both skill sets are empty, for
    every list of extra keywords and every environment. *)
Theorem empty_texts_report has_sk backend extra :
  ∃ r, compute_nlp_scores has_sk backend "" "" extra = Ok r ∧
       (skills_overlap r == 0)%Q ∧
       resume_skills r = ∅ ∧ jd_skills r = ∅ ∧
       Z.max 1 (len (resume_skills r ∪ jd_skills r)) = 1%Z.
Proof.
  report_of_call.
  rewrite extract_skills_empty_text. split_and!; reflexivity.
Qed.

(** C9. Swapping the two texts leaves the overlap unchanged and swaps
    the two skill sets. *)
Theorem skills_symmetric has_sk backend a b extra :
  ∃ r1 r2,
    compute_nlp_scores has_sk backend a b extra = Ok r1 ∧
    compute_nlp_scores has_sk backend b a extra = Ok r2 ∧
    skills_overlap r1 = skills_overlap r2 ∧
    resume_skills r1 = jd_skills r2 ∧
    jd_skills r1 = resume_skills r2.
Proof.
  do 2 eexists. split_and!; try apply compute_nlp_scores_ok; cbn.
  - apply jaccard_comm.
  - reflexivity.
  - reflexivity.
Qed.

(** C10. Extra keywords only add to the result: what is found without
    them is found with them. *)
Theorem extra_keywords_enlarge text extra :
  _extract_skills text None ⊆ _extract_skills text extra.
Proof.
  intros kw. unfold _extract_skills. rewrite !elem_of_filter.
  intros [Hm Hk]. split; [exact Hm|].
  destruct extra as [[|k ks]|]; try exact Hk.
  apply elem_of_union. by left.
Qed.

(** C6. ["java"] is not found in ["javascript"]. *)
Theorem java_not_in_javascript : "java" ∉ _extract_skills "javascript" None.
Proof.
  intros H%extract_skills_found. vm_compute in H. discriminate.
Qed.

Example javascript_alone : _extract_skills "javascript" None = {["javascript"]}.
Proof. vm_compute. reflexivity. Qed.

(** ** Whole-word search, characterised *)

Lemma match_here_literal kw pat prev s :
  match_here (re_escape kw ++ pat) prev s = true ↔
  ∃ t, s = kw ++ t ∧ match_here pat (last_char prev kw) t = true.
Proof.
  revert prev s. induction kw as [|c kw IH]; intros prev s.
  - cbn. split; [intros H; by exists s|intros (t & -> & H); exact H].
  - change (re_escape (String c kw) ++ pat)%list with (Lit c :: (re_escape kw ++ pat)%list).
    cbn [match_here last_char]. destruct s as [|d r].
    + split; [discriminate|intros (t & E & _); discriminate E].
    + destruct (Ascii.eqb_spec c d) as [<-|Hne].
      * rewrite IH. split.
        -- intros (t & -> & H). by exists t.
        -- intros (t & [= ->] & H). by exists t.
      * split; [discriminate|intros (t & [= E _] & _); by destruct Hne].
Qed.

Lemma search_from_spec pat prev s :
  search_from pat prev s = true ↔
  ∃ pre post, s = pre ++ post ∧ match_here pat (last_char prev pre) post = true.
Proof.
  revert prev. induction s as [|c s IH]; intros prev; cbn [search_from].
  - rewrite orb_false_r. split.
    + intros H. by exists "", "".
    + intros (pre & post & E & H). destruct pre; [|discriminate E].
      change ("" = post) in E. by subst post.
  - rewrite orb_true_iff, IH. split.
    + intros [H|(pre & post & -> & H)].
      * by exists "", (String c s).
      * by exists (String c pre), post.
    + intros (pre & post & E & H). destruct pre as [|d pre].
      * change (String c s = post) in E. subst post. by left.
      * injection E as <- ->. right. by exists pre, post.
Qed.

(** [re.search(rf"\b{re.escape(kw)}\b", corpus)] finds an occurrence of
    [kw] with a word boundary in front of it and one behind it. *)
Lemma re_search_kw_spec kw corpus :
  re_search (kw_pattern kw) corpus = true ↔
  ∃ pre post, corpus = pre ++ kw ++ post ∧
    at_boundary (last_char None pre) (kw ++ post) = true ∧
    at_boundary (last_char (last_char None pre) kw) post = true.
Proof.
  unfold re_search, kw_pattern. rewrite search_from_spec.
  split.
  - intros (pre & rest & -> & H). cbn [match_here] in H.
    apply andb_true_iff in H as [Hb H].
    apply match_here_literal in H as (post & -> & H).
    cbn [match_here] in H. rewrite andb_true_r in H.
    by exists pre, post.
  - intros (pre & post & -> & Hb & He). exists pre, (kw ++ post).
    split; [reflexivity|]. cbn [match_here]. rewrite Hb. cbn [andb].
    apply match_here_literal. exists post. split; [reflexivity|].
    cbn [match_here]. by rewrite He.
Qed.

(** A keyword that ends in a non-word character is found only where a
    word character follows it: never at the end of the text, nor before
    a space or punctuation. *)
Lemma cpp_found_only_before_word text extra :
  "c++" ∈ _extract_skills text extra →
  ∃ pre c post, lower text = pre ++ "c++" ++ String c post ∧ is_word c = true.
Proof.
  intros H%extract_skills_found.
  apply re_search_kw_spec in H as (pre & post & E & _ & Hb).
  cbn [last_char] in Hb. unfold at_boundary in Hb.
  destruct post as [|c post]; [discriminate Hb|].
  exists pre, c, post. split; [exact E|exact Hb].
Qed.

(** The search does not match at an occurrence of ["c++"] that ends the
    text or is followed by a non-word character (a space, a comma),
    whatever precedes it. *)
Lemma cpp_standalone_occurrence_unmatched prev post :
  word_opt (first_char post) = false →
  match_here (kw_pattern "c++") prev ("c++" ++ post) = false.
Proof.
  intros Hpost.
  change (match_here (kw_pattern "c++") prev ("c++" ++ post))
    with (at_boundary prev ("c++" ++ post) &&
          (xorb false (word_opt (first_char post)) && true)).
  rewrite Hpost. apply andb_false_r.
Qed.

(** C4. The catalog keyword ["c++"] is not found in the text ["c++"],
    nor where it stands as a word of its own in a sentence; only ["c"]
    is.  It is found where a word character follows it. *)
Theorem cpp_standalone_missed :
  (_extract_skills "c++" None = {["c"]}) ∧
  ("c++" ∉ _extract_skills "I know C++ and Python" None) ∧
  ("c++" ∈ DEFAULT_SKILLS) ∧
  ("c++" ∈ _extract_skills "c++11" None).
Proof.
  split_and!.
  - vm_compute. reflexivity.
  - intros H%extract_skills_found. vm_compute in H. discriminate.
  - unfold DEFAULT_SKILLS. rewrite !elem_of_cons. tauto.
  - apply elem_of_extract_skills_default. split; [reflexivity|].
    unfold DEFAULT_SKILLS. rewrite !elem_of_cons. tauto.
Qed.

(** ** Degraded mode *)

Lemma engine_silent_report_eq backend a b extra :
  (engine_cosine true backend a b == 0)%Q →
  report_eq
    {| cosine := engine_cosine true backend a b;
       skills_overlap := jaccard (_extract_skills a extra) (_extract_skills b extra);
       hybrid := hybrid_score true (engine_cosine true backend a b)
                   (jaccard (_extract_skills a extra) (_extract_skills b extra));
       resume_skills := _extract_skills a extra;
       jd_skills := _extract_skills b extra |}
    {| cosine := engine_cosine false backend a b;
       skills_overlap := jaccard (_extract_skills a extra) (_extract_skills b extra);
       hybrid := hybrid_score false (engine_cosine false backend a b)
                   (jaccard (_extract_skills a extra) (_extract_skills b extra));
       resume_skills := _extract_skills a extra;
       jd_skills := _extract_skills b extra |}.
Proof.
  intros H0. unfold report_eq. cbn.
  split_and!; try reflexivity; [exact H0|].
  unfold hybrid_score. rewrite H0. ring.
Qed.

(** The claim of C5 fails: no function of the values in the report
    tells whether the engine was available.  On two empty texts the
    report is the same with and without it. *)
Lemma availability_not_in_report :
  ¬ ∃ detect : report → bool,
      (∀ r r', report_eq r r' → detect r = detect r') ∧
      ∀ has_sk backend a b extra r,
        cosine_in_range backend →
        compute_nlp_scores has_sk backend a b extra = Ok r →
        detect r = has_sk.
Proof.
  intros (detect & Hext & Hd).
  pose proof (Hd true sample_backend "" "" None _ sample_backend_in_range
                (compute_nlp_scores_ok _ _ _ _ _)) as Ht.
  pose proof (Hd false sample_backend "" "" None _ sample_backend_in_range
                (compute_nlp_scores_ok _ _ _ _ _)) as Hf.
  rewrite (Hext _ _ (engine_silent_report_eq sample_backend "" "" None
                       (Qeq_refl 0))) in Ht.
  congruence.
Qed.

(** C5, amended. Without the engine the report has a cosine of 0 and a
    hybrid of [0.35 * skills_overlap]; the report has no availability
    field, and whenever the cosine is 0 with the engine available (the
    scikit-learn call raised, or the texts share no term) the report
    has the same values as the one without the engine. *)
Theorem degraded_mode_report backend a b extra :
  ∃ r_off,
    compute_nlp_scores false backend a b extra = Ok r_off ∧
    cosine r_off = 0%Q ∧
    (hybrid r_off == 0.35 * skills_overlap r_off)%Q ∧
    ((engine_cosine true backend a b == 0)%Q →
     ∃ r_on, compute_nlp_scores true backend a b extra = Ok r_on ∧
             report_eq r_on r_off).
Proof.
  report_of_call.
  split_and!; try reflexivity.
  intros H0. eexists. split; [apply compute_nlp_scores_ok|].
  by apply engine_silent_report_eq.
Qed.

Lemma degraded_mode_report_witness :
  ∃ r_off,
    compute_nlp_scores false sample_backend "" "" None = Ok r_off ∧
    cosine r_off = 0%Q ∧
    (hybrid r_off == 0.35 * skills_overlap r_off)%Q ∧
    ∃ r_on, compute_nlp_scores true sample_backend "" "" None = Ok r_on ∧
            report_eq r_on r_off.
Proof.
  destruct (degraded_mode_report sample_backend "" "" None)
    as (r & Hr & Hc & Hh & Hon).
  exists r. split_and!; try assumption.
  apply Hon. reflexivity.
Defined.

(** * Beyond the claims *)

(** ** Strings *)

Lemma str_app_cons c s t : String c s ++ t = String c (s ++ t).
Proof. reflexivity. Qed.

Lemma str_app_nil_l s : "" ++ s = s.
Proof. reflexivity. Qed.

Lemma str_app_nil_r s : s ++ "" = s.
Proof. induction s as [|c s IH]; [done|]. by rewrite str_app_cons, IH. Qed.

Lemma str_app_assoc s1 s2 s3 : (s1 ++ s2) ++ s3 = s1 ++ s2 ++ s3.
Proof.
  induction s1 as [|c s1 IH]; [done|]. by rewrite !str_app_cons, IH.
Qed.

Lemma str_forall_app P s1 s2 :
  str_forall P (s1 ++ s2) = str_forall P s1 && str_forall P s2.
Proof.
  induction s1 as [|c s1 IH]; [done|].
  rewrite str_app_cons. cbn. by rewrite IH, andb_assoc.
Qed.

Lemma str_forall_impl (P Q : ascii → bool) s :
  (∀ c, P c = true → Q c = true) →
  str_forall P s = true → str_forall Q s = true.
Proof.
  intros HPQ. induction s as [|c s IH]; [done|]. cbn.
  rewrite !andb_true_iff. intros [Hc Hs]. auto.
Qed.

Lemma lower_app s1 s2 : lower (s1 ++ s2) = lower s1 ++ lower s2.
Proof.
  induction s1 as [|c s1 IH]; [done|].
  rewrite str_app_cons. cbn. by rewrite IH.
Qed.

(** ** Character classes *)

Ltac by_cases_on_char c :=
  destruct c as [[] [] [] [] [] [] [] []]; vm_compute; try reflexivity; try discriminate.

Lemma token_char_not_space c : token_char c = true → is_space c = false.
Proof. by_cases_on_char c. Qed.

Lemma token_char_lower c : token_char c = true → lower_char c = c.
Proof. by_cases_on_char c. Qed.

Lemma token_char_keep c : token_char c = true → keep_char c = true.
Proof. by_cases_on_char c. Qed.

Lemma lower_char_idemp c : lower_char (lower_char c) = lower_char c.
Proof. by_cases_on_char c. Qed.

Lemma sub_other_char_class c :
  let d := if keep_char c then c else " "%char in
  is_space d = negb (token_char c) ∧ (is_space d = false → token_char d = true).
Proof. by_cases_on_char c; split; try reflexivity; try discriminate. Qed.

(** ** [str.split] and [str.join] *)

Lemma flush_app_token cur w : w ≠ "" → flush (cur ++ w) = [cur ++ w].
Proof.
  intros Hw. destruct cur as [|c cur]; [|done].
  rewrite str_app_nil_l. by destruct w.
Qed.

Lemma split_from_word cur w s :
  str_forall (λ c, negb (is_space c)) w = true →
  split_from cur (w ++ s) = split_from (cur ++ w) s.
Proof.
  revert cur. induction w as [|c w IH]; intros cur Hw.
  - by rewrite str_app_nil_l, str_app_nil_r.
  - cbn in Hw. apply andb_true_iff in Hw as [Hc Hw].
    apply negb_true_iff in Hc.
    rewrite str_app_cons. cbn [split_from]. rewrite Hc, (IH _ Hw).
    by rewrite str_app_assoc.
Qed.

Lemma split_from_tokens (P : ascii → bool) cur s :
  str_forall P cur = true →
  str_forall (λ c, is_space c || P c) s = true →
  Forall (λ w, w ≠ "" ∧ str_forall P w = true) (split_from cur s).
Proof.
  revert cur. induction s as [|c s IH]; intros cur Hcur Hs; cbn [split_from].
  - destruct cur; cbn; [constructor|]. by repeat constructor.
  - cbn in Hs. apply andb_true_iff in Hs as [Hc Hs].
    destruct (is_space c) eqn:Esp.
    + apply Forall_app. split; [|by apply IH].
      destruct cur; cbn; [constructor|]. by repeat constructor.
    + apply IH; [|done]. rewrite str_forall_app, Hcur. cbn in *. by rewrite Hc.
Qed.

Lemma token_no_space w :
  str_forall token_char w = true → str_forall (λ c, negb (is_space c)) w = true.
Proof.
  apply str_forall_impl. intros c Hc. by rewrite (token_char_not_space c Hc).
Qed.

Lemma str_join_cons2 w w' ws :
  str_join (w :: w' :: ws) = w ++ " " ++ str_join (w' :: ws).
Proof. reflexivity. Qed.

Lemma split_from_join cur ws :
  Forall token ws →
  split_from cur (str_join ws) =
  match ws with
  | [] => flush cur
  | w :: rest => (cur ++ w) :: rest
  end.
Proof.
  intros Hws. revert cur. induction Hws as [|w ws [Hne Hw] Hws IH]; intros cur.
  - reflexivity.
  - destruct ws as [|w' ws].
    + change (str_join [w]) with w. rewrite <- (str_app_nil_r w) at 1.
      rewrite split_from_word by by apply token_no_space.
      cbn [split_from]. by apply flush_app_token.
    + rewrite str_join_cons2, split_from_word by by apply token_no_space.
      rewrite str_app_cons, str_app_nil_l. cbn [split_from].
      change (is_space " ") with true. cbv iota.
      rewrite flush_app_token by done. rewrite (IH ""). by rewrite str_app_nil_l.
Qed.

(** Splitting undoes joining on lists of tokens. *)
Lemma str_split_join ws : Forall token ws → str_split (str_join ws) = ws.
Proof.
  intros Hws. unfold str_split. rewrite split_from_join by done.
  by destruct ws.
Qed.

Lemma str_join_chars ws :
  Forall token ws →
  str_forall (λ c, token_char c || Ascii.eqb c " ") (str_join ws) = true.
Proof.
  induction 1 as [|w ws [_ Hw] Hws IH]; [done|].
  assert (Hw' : str_forall (λ c, token_char c || Ascii.eqb c " ") w = true).
  { revert Hw. apply str_forall_impl. by intros c ->. }
  destruct ws as [|w' ws]; [exact Hw'|].
  rewrite str_join_cons2, !str_forall_app, Hw', IH. reflexivity.
Qed.

Lemma str_join_empty ws : Forall token ws → str_join ws = "" → ws = [].
Proof.
  intros Hws E. destruct Hws as [|w ws [Hne _] _]; [done|].
  destruct w as [|c w]; [done|]. by destruct ws.
Qed.

(** ** [_clean_text] *)

Lemma lower_fixed s :
  str_forall (λ c, token_char c || Ascii.eqb c " ") s = true → lower s = s.
Proof.
  induction s as [|c s IH]; [done|]. cbn.
  intros [Hc Hs]%andb_true_iff. rewrite (IH Hs). f_equal.
  apply orb_true_iff in Hc as [Hc|Hc%Ascii.eqb_eq].
  - by apply token_char_lower.
  - by subst c.
Qed.

Lemma sub_other_fixed s :
  str_forall (λ c, token_char c || Ascii.eqb c " ") s = true → sub_other s = s.
Proof.
  induction s as [|c s IH]; [done|]. cbn.
  intros [Hc Hs]%andb_true_iff. rewrite (IH Hs). f_equal.
  apply orb_true_iff in Hc as [Hc|Hc%Ascii.eqb_eq].
  - by rewrite token_char_keep.
  - by subst c.
Qed.

Lemma sub_other_classes s :
  str_forall (λ c, is_space c || token_char c) (sub_other s) = true.
Proof.
  induction s as [|c s IH]; [done|]. cbn. rewrite IH, andb_true_r.
  destruct (sub_other_char_class c) as [_ H].
  destruct (is_space _); [done|]. by apply H.
Qed.

Lemma clean_text_tokens t : Forall token (str_split (sub_other (lower t))).
Proof.
  apply (split_from_tokens token_char); [done|apply sub_other_classes].
Qed.

Lemma clean_text_fixed ws : Forall token ws → _clean_text (str_join ws) = str_join ws.
Proof.
  intros Hws. unfold _clean_text.
  rewrite lower_fixed, sub_other_fixed by by apply str_join_chars.
  by rewrite str_split_join.
Qed.

(** X1. A cleaned text is a list of words joined by single spaces, each
    word not empty and made of the characters [a-z], [0-9] and [+]: no
    other character, no space in front, at the end or doubled. *)
Theorem clean_text_normal_form t :
  ∃ ws, _clean_text t = str_join ws ∧ Forall token ws ∧
        str_split (_clean_text t) = ws.
Proof.
  exists (str_split (sub_other (lower t))).
  pose proof (clean_text_tokens t) as Hws.
  split_and!; [done|done|]. unfold _clean_text. by apply str_split_join.
Qed.

(** X2. Cleaning is idempotent. *)
Theorem clean_text_idempotent t : _clean_text (_clean_text t) = _clean_text t.
Proof.
  unfold _clean_text at 2 3. apply clean_text_fixed, clean_text_tokens.
Qed.

Lemma split_from_nonempty cur s : cur ≠ "" → split_from cur s ≠ [].
Proof.
  revert cur. induction s as [|c s IH]; intros cur Hcur; cbn [split_from].
  - by destruct cur.
  - destruct (is_space c).
    + by destruct cur.
    + apply IH. by destruct cur.
Qed.

Lemma split_from_nil s :
  split_from "" s = [] ↔ str_forall is_space s = true.
Proof.
  induction s as [|c s IH]; [done|]. cbn [split_from str_forall].
  destruct (is_space c) eqn:Esp; cbn.
  - exact IH.
  - split; [|done]. intros E. by apply split_from_nonempty in E.
Qed.

Lemma sub_other_all_space t :
  str_forall is_space (sub_other (lower t)) =
  str_forall (λ c, negb (token_char (lower_char c))) t.
Proof.
  induction t as [|c t IH]; [done|]. cbn. rewrite IH. f_equal.
  by destruct (sub_other_char_class (lower_char c)) as [-> _].
Qed.

(** X3. A text cleans to the empty text exactly when, once lower-cased,
    it has no letter [a-z], no digit and no [+]. *)
Theorem clean_text_empty_iff t :
  _clean_text t = "" ↔
  str_forall (λ c, negb (token_char (lower_char c))) t = true.
Proof.
  rewrite <- sub_other_all_space, <- split_from_nil. unfold _clean_text.
  split.
  - apply str_join_empty, clean_text_tokens.
  - unfold str_split. by intros ->.
Qed.

(** ** [_extract_skills] *)

Lemma extract_skills_filter text extra :
  _extract_skills text extra =
  filter (λ kw, re_search (kw_pattern kw) (lower text) = true) (catalog extra).
Proof.
  unfold _extract_skills, catalog.
  destruct extra as [[|k ks]|]; cbn [default fmap list_fmap];
    rewrite ?list_to_set_nil, ?(right_id_L ∅ (∪)); reflexivity.
Qed.

Lemma elem_of_extract_skills kw text extra :
  kw ∈ _extract_skills text extra ↔
  kw ∈ catalog extra ∧
  ∃ pre post, lower text = pre ++ kw ++ post ∧ whole_word pre kw post.
Proof.
  rewrite extract_skills_filter, elem_of_filter, re_search_kw_spec.
  unfold whole_word. tauto.
Qed.

Lemma last_char_nonempty prev prev' kw :
  kw ≠ "" → last_char prev kw = last_char prev' kw.
Proof. by destruct kw. Qed.

Lemma first_char_app kw post : kw ≠ "" → first_char (kw ++ post) = first_char kw.
Proof. by destruct kw. Qed.

(** X4. A keyword that starts and ends with a word character is
    reported exactly when it is in the catalog and the lower-cased text
    has an occurrence of it with no word character right before it and
    none right after it. *)
Theorem extract_skills_whole_word kw text extra :
  word_opt (first_char kw) = true →
  word_opt (last_char None kw) = true →
  (kw ∈ _extract_skills text extra ↔
   kw ∈ catalog extra ∧
   ∃ pre post, lower text = pre ++ kw ++ post ∧
     word_opt (last_char None pre) = false ∧
     word_opt (first_char post) = false).
Proof.
  intros Hfirst Hlast.
  assert (Hne : kw ≠ "") by (intros ->; discriminate Hfirst).
  rewrite elem_of_extract_skills. unfold whole_word, at_boundary.
  split; intros (Hcat & pre & post & E & H); (split; [exact Hcat|]);
    exists pre, post; (split; [exact E|]);
    rewrite first_char_app, Hfirst,
      (last_char_nonempty _ None kw Hne), Hlast in *;
    destruct (word_opt (last_char None pre)), (word_opt (first_char post));
    cbn in *; intuition congruence.
Qed.

Lemma extract_skills_whole_word_witness :
  "python" ∈ _extract_skills "Python, SQL" None ↔
  "python" ∈ catalog None ∧
  ∃ pre post, lower "Python, SQL" = pre ++ "python" ++ post ∧
    word_opt (last_char None pre) = false ∧
    word_opt (first_char post) = false.
Proof.
  apply (extract_skills_whole_word "python" "Python, SQL" None); reflexivity.
Defined.

(** X5. A keyword that ends with a non-word character (["c++"], ["c#"])
    is reported only if the text has an occurrence of it with a word
    character right after it; one that starts with a non-word character
    ([".net"]) only if a word character stands right before it. *)
Theorem extract_skills_nonword_edge kw text extra :
  kw ∈ _extract_skills text extra → kw ≠ "" →
  (word_opt (last_char None kw) = false →
   ∃ pre c post, lower text = pre ++ kw ++ String c post ∧ is_word c = true) ∧
  (word_opt (first_char kw) = false →
   ∃ pre post, lower text = pre ++ kw ++ post ∧
               word_opt (last_char None pre) = true).
Proof.
  intros (_ & pre & post & E & Hb & He)%elem_of_extract_skills Hne.
  unfold at_boundary in *.
  rewrite first_char_app in Hb by done.
  rewrite (last_char_nonempty _ None kw Hne) in He.
  split.
  - intros Hlast. rewrite Hlast in He. destruct post as [|c post]; [done|].
    by exists pre, c, post.
  - intros Hfirst. rewrite Hfirst, xorb_false_r in Hb. by exists pre, post.
Qed.

Lemma extract_skills_nonword_edge_witness :
  (word_opt (last_char None "c++") = false →
   ∃ pre c post, lower "C++11 and C" = pre ++ "c++" ++ String c post ∧
                 is_word c = true) ∧
  (word_opt (first_char "c++") = false →
   ∃ pre post, lower "C++11 and C" = pre ++ "c++" ++ post ∧
               word_opt (last_char None pre) = true).
Proof.
  apply (extract_skills_nonword_edge "c++" "C++11 and C" None).
  - apply elem_of_extract_skills_default. split; [reflexivity|].
    unfold DEFAULT_SKILLS. rewrite !elem_of_cons. tauto.
  - discriminate.
Defined.

Lemma lower_idemp s : lower (lower s) = lower s.
Proof.
  induction s as [|c s IH]; [done|]. cbn. by rewrite lower_char_idemp, IH.
Qed.

Lemma default_skills_lower : Forall (λ k, lower k = k) DEFAULT_SKILLS.
Proof. unfold DEFAULT_SKILLS. repeat constructor. Qed.

Lemma catalog_lower kw extra : kw ∈ catalog extra → lower kw = kw.
Proof.
  unfold catalog. rewrite elem_of_union, !elem_of_list_to_set. intros [H|H].
  - by apply (proj1 (Forall_forall _ _) default_skills_lower).
  - apply list_elem_of_fmap in H as (k & -> & _). apply lower_idemp.
Qed.

(** X6. Every reported skill is a default skill or the lower-cased form
    of an extra keyword, and is in lower case. *)
Theorem extract_skills_in_catalog kw text extra :
  kw ∈ _extract_skills text extra →
  (kw ∈ DEFAULT_SKILLS ∨ ∃ k, k ∈ default [] extra ∧ kw = lower k) ∧
  lower kw = kw.
Proof.
  intros [Hcat _]%elem_of_extract_skills. split; [|by eapply catalog_lower].
  unfold catalog in Hcat.
  rewrite elem_of_union, !elem_of_list_to_set in Hcat.
  destruct Hcat as [H|H]; [by left|right].
  apply list_elem_of_fmap in H as (k & -> & Hk). by exists k.
Qed.

Lemma extract_skills_in_catalog_witness :
  ("rustlang" ∈ DEFAULT_SKILLS ∨
   ∃ k, k ∈ default [] (Some ["RustLang"]) ∧ "rustlang" = lower k) ∧
  lower "rustlang" = "rustlang".
Proof.
  apply (extract_skills_in_catalog "rustlang" "I know Rustlang" (Some ["RustLang"])).
  vm_compute. reflexivity.
Defined.

Lemma catalog_fmap_lower (extra : option (list string)) :
  catalog ((λ ks : list string, lower <$> ks) <$> extra) = catalog extra.
Proof.
  unfold catalog. f_equal. f_equal. destruct extra as [ks|]; [|done]. cbn.
  rewrite <- list_fmap_compose. apply list_fmap_ext. intros _ k _. cbn.
  apply lower_idemp.
Qed.

(** X7. The case of the text and of the extra keywords is irrelevant:
    lower-casing them beforehand gives the same skills. *)
Theorem extract_skills_case_insensitive text (extra : option (list string)) :
  _extract_skills (lower text) ((λ ks : list string, lower <$> ks) <$> extra) = _extract_skills text extra.
Proof.
  by rewrite !extract_skills_filter, catalog_fmap_lower, lower_idemp.
Qed.

(** X8. More extra keywords never report less: if every keyword of [ks]
    is among [ks'], what is found with [ks] is found with [ks'] (so the
    order and the repetitions of the extra keywords do not matter). *)
Theorem extract_skills_extra_mono text ks ks' :
  ks ⊆ ks' →
  _extract_skills text (Some ks) ⊆ _extract_skills text (Some ks').
Proof.
  intros Hsub kw. rewrite !extract_skills_filter, !elem_of_filter.
  intros [Hm Hk]. split; [exact Hm|]. revert Hk. unfold catalog. cbn.
  rewrite !elem_of_union, !elem_of_list_to_set, !list_elem_of_fmap.
  intros [H|(k & -> & Hk)]; [by left|right]. exists k. split; [done|].
  by apply Hsub.
Qed.

Lemma extract_skills_extra_mono_witness :
  _extract_skills "Go and Rust" (Some ["go"]) ⊆
  _extract_skills "Go and Rust" (Some ["rust"; "go"; "go"]).
Proof.
  apply (extract_skills_extra_mono "Go and Rust" ["go"] ["rust"; "go"; "go"]).
  intros k. rewrite !elem_of_cons. tauto.
Defined.

Lemma last_char_app prev s t : last_char prev (s ++ t) = last_char (last_char prev s) t.
Proof.
  revert prev. induction s as [|c s IH]; intros prev; [done|].
  rewrite str_app_cons. cbn. apply IH.
Qed.

Lemma word_opt_last_char p p' s :
  word_opt p = word_opt p' → word_opt (last_char p s) = word_opt (last_char p' s).
Proof. by destruct s. Qed.

Lemma at_boundary_prev p p' s :
  word_opt p = word_opt p' → at_boundary p s = at_boundary p' s.
Proof. unfold at_boundary. by intros ->. Qed.

Lemma at_boundary_rest p s s' :
  word_opt (first_char s) = word_opt (first_char s') →
  at_boundary p s = at_boundary p s'.
Proof. unfold at_boundary. by intros ->. Qed.

Lemma first_char_before_space s r :
  word_opt (first_char (s ++ " " ++ r)) = word_opt (first_char s).
Proof. by destruct s. Qed.

Lemma whole_word_extend_right pre kw post r :
  whole_word pre kw post → whole_word pre kw (post ++ " " ++ r).
Proof.
  unfold whole_word. intros [Hb He]. split.
  - etrans; [|exact Hb]. apply at_boundary_rest.
    rewrite <- (str_app_assoc kw post). apply first_char_before_space.
  - etrans; [|exact He]. apply at_boundary_rest, first_char_before_space.
Qed.

Lemma whole_word_extend_left l pre kw post :
  whole_word pre kw post → whole_word (l ++ " " ++ pre) kw post.
Proof.
  unfold whole_word. intros [Hb He].
  assert (Hp : word_opt (last_char None (l ++ " " ++ pre)) =
               word_opt (last_char None pre)).
  { rewrite !last_char_app. by apply word_opt_last_char. }
  split.
  - etrans; [|exact Hb]. by apply at_boundary_prev.
  - etrans; [|exact He]. by apply at_boundary_prev, word_opt_last_char.
Qed.

(** X9. Putting two texts together with a space between them loses no
    skill: what is found in either text is found in the joined text. *)
Theorem extract_skills_concat a b extra :
  _extract_skills a extra ∪ _extract_skills b extra ⊆
  _extract_skills (a ++ " " ++ b) extra.
Proof.
  intros kw. rewrite elem_of_union, !elem_of_extract_skills.
  rewrite !lower_app. change (lower " ") with " ".
  intros [(Hcat & pre & post & -> & Hw)|(Hcat & pre & post & -> & Hw)];
    (split; [exact Hcat|]).
  - exists pre, (post ++ " " ++ lower b). split.
    + by rewrite !str_app_assoc.
    + by apply whole_word_extend_right.
  - exists (lower a ++ " " ++ pre), post. split.
    + by rewrite !str_app_assoc.
    + by apply whole_word_extend_left.
Qed.

(** ** The empty keyword *)

Lemma search_boundary prev s :
  search_from (kw_pattern "") prev s =
  word_opt prev || negb (str_forall (λ c, negb (is_word c)) s).
Proof.
  revert prev. induction s as [|c s IH]; intros prev.
  - cbn. unfold at_boundary. cbn. by destruct (word_opt prev).
  - cbn [search_from]. rewrite IH. cbn. unfold at_boundary. cbn.
    by destruct (word_opt prev), (is_word c), (str_forall _ s).
Qed.

Lemma is_word_lower c : is_word (lower_char c) = is_word c.
Proof. by_cases_on_char c. Qed.

Lemma no_word_lower s :
  str_forall (λ c, negb (is_word c)) (lower s) = str_forall (λ c, negb (is_word c)) s.
Proof.
  induction s as [|c s IH]; [done|]. cbn. by rewrite is_word_lower, IH.
Qed.

Lemma default_skills_nonempty : "" ∉ DEFAULT_SKILLS.
Proof.
  assert (H : Forall (λ k, k ≠ "") DEFAULT_SKILLS)
    by (unfold DEFAULT_SKILLS; repeat constructor; discriminate).
  intros Hin. by apply (proj1 (Forall_forall _ _) H) in Hin.
Qed.

(** X10. An empty extra keyword is reported as a skill of every text
    that has a word character (a letter, a digit or an underscore), and
    of no other text. *)
Theorem extract_skills_empty_keyword text extra :
  "" ∈ _extract_skills text extra ↔
  "" ∈ default [] extra ∧ str_forall (λ c, negb (is_word c)) text = false.
Proof.
  rewrite extract_skills_filter, elem_of_filter.
  unfold re_search. rewrite search_boundary, no_word_lower. cbn [word_opt orb].
  rewrite negb_true_iff. unfold catalog.
  rewrite elem_of_union, !elem_of_list_to_set, list_elem_of_fmap.
  split.
  - intros [Hs [H|(k & Hk & Hin)]].
    + by apply default_skills_nonempty in H.
    + destruct k as [|c k]; [done|discriminate Hk].
  - intros [Hin Hs]. split; [done|]. right. by exists "".
Qed.

(** ** The overlap, characterised *)

Lemma quotient_zero n d :
  (0 < d)%Z → (inject_Z n / inject_Z d == 0)%Q ↔ n = 0%Z.
Proof.
  intros Hd. destruct d as [|p|p]; try lia.
  unfold Qeq, Qdiv, Qmult, Qinv, inject_Z. cbn. lia.
Qed.

Lemma quotient_one n d :
  (0 < d)%Z → (inject_Z n / inject_Z d == 1)%Q ↔ n = d.
Proof.
  intros Hd. destruct d as [|p|p]; try lia.
  unfold Qeq, Qdiv, Qmult, Qinv, inject_Z. cbn. lia.
Qed.

Lemma jaccard_zero_iff rs js : (jaccard rs js == 0)%Q ↔ rs ∩ js = ∅.
Proof.
  unfold jaccard. rewrite quotient_zero by lia. unfold len.
  rewrite <- (leibniz_equiv_iff (rs ∩ js) ∅), <- size_empty_iff. lia.
Qed.

Lemma jaccard_one_iff rs js : (jaccard rs js == 1)%Q ↔ rs = js ∧ rs ≠ ∅.
Proof.
  unfold jaccard. rewrite quotient_one by lia. unfold len. split.
  - intros E.
    assert (Hsub : rs ∩ js ⊆ rs ∪ js).
    { intros x [Hx _]%elem_of_intersection. apply elem_of_union. by left. }
    assert (Hpos : size (rs ∪ js) ≠ 0%nat).
    { intros E0. apply subseteq_size in Hsub. lia. }
    apply set_subseteq_size_eq in Hsub; [|lia].
    assert (Hrs : rs = js).
    { apply set_eq. intros x. split; intros Hx.
      - assert (x ∈ rs ∩ js) as [_ ?]%elem_of_intersection; [|done].
        rewrite Hsub. apply elem_of_union. by left.
      - assert (x ∈ rs ∩ js) as [? _]%elem_of_intersection; [|done].
        rewrite Hsub. apply elem_of_union. by right. }
    split; [done|]. intros ->. subst js.
    rewrite (idemp_L (∪)) in Hpos. by rewrite size_empty in Hpos.
  - intros [<- Hne]. rewrite (idemp_L (∩)), (idemp_L (∪)).
    assert (size rs ≠ 0%nat); [|lia].
    intros E%size_empty_iff%leibniz_equiv. done.
Qed.

(** X11. The overlap is 0 exactly when the two texts have no skill in
    common, and 1 exactly when they have the same skills and at least
    one. *)
Theorem skills_overlap_extremes has_sk backend a b extra :
  ∃ r, compute_nlp_scores has_sk backend a b extra = Ok r ∧
       ((skills_overlap r == 0)%Q ↔ resume_skills r ∩ jd_skills r = ∅) ∧
       ((skills_overlap r == 1)%Q ↔
        resume_skills r = jd_skills r ∧ resume_skills r ≠ ∅).
Proof.
  report_of_call. split; [apply jaccard_zero_iff|apply jaccard_one_iff].
Qed.

(** X12. A text compared with itself has an overlap of 1 when a skill
    is found in it, and of 0 when none is. *)
Theorem same_text_overlap has_sk backend a extra :
  ∃ r, compute_nlp_scores has_sk backend a a extra = Ok r ∧
       (skills_overlap r == if decide (_extract_skills a extra = ∅) then 0 else 1)%Q.
Proof.
  report_of_call. case_decide as E.
  - apply jaccard_zero_iff. rewrite E. apply (idemp_L (∩)).
  - by apply jaccard_one_iff.
Qed.

(** ** With and without the engine *)



(** ** The percentages of the match page *)





Example kpi_percentages_ex :
  kpi_percentages true sample_backend "Python and SQL" "Python and AWS" = Ok (0, 33, 12)%Z ∧
  py_round 0.5 = 0%Z ∧ py_round 1.5 = 2%Z ∧ py_round 2.5 = 2%Z.
Proof. split_and!; vm_compute; reflexivity. Qed.

(** ** The heuristic scores *)

(** X16. The fallback scores are within the 1-5 scale of the rubric:
    clarity is 2 or 3, structure 2 to 5, technical depth and impact are
    equal and 3 or 4, conciseness 2 to 4; a conciseness of 4 comes with
    a clarity of 3. *)
Theorem heuristic_scores_range answer :
  let s := heuristic_scores answer in
  (2 <= clarity s <= 3)%Z ∧
  (2 <= structure s <= 5)%Z ∧
  (3 <= technical_depth s <= 4)%Z ∧
  impact s = technical_depth s ∧
  (2 <= conciseness s <= 4)%Z ∧
  (conciseness s = 4%Z → clarity s = 3%Z).
Proof.
  cbn -[str_split lower str_in Z.of_nat Z.min Z.leb Z.ltb].
  set (n := Z.of_nat (length (str_split answer))).
  set (h := Z.of_nat _).
  assert (0 <= h)%Z by (subst h; lia).
  destruct (str_exists isdigit answer);
    destruct (Z.leb_spec 40 n), (Z.leb_spec 60 n), (Z.leb_spec n 220),
      (Z.ltb_spec n 60); cbn; lia.
Qed.

(** X17. [critique_interview_answer] returns what the model replied
    exactly when the reply decodes as JSON to a value that contains both
    ["scores"] and ["improved_answer"]; in every other case (the call
    raised, the reply is not JSON, a key is missing, the value is a
    number, a boolean or null) it returns the heuristic scores of the
    answer. *)
Theorem critique_interview_answer_cases json_loads llm_reply answer :
  (∀ data,
     critique_interview_answer json_loads llm_reply answer = ModelFeedback data ↔
     ∃ raw, llm_reply = Ok raw ∧ json_loads raw = Ok data ∧
            py_in "scores" data = Ok true ∧
            py_in "improved_answer" data = Ok true) ∧
  (∀ s,
     critique_interview_answer json_loads llm_reply answer = HeuristicFeedback s →
     s = heuristic_scores answer).
Proof.
  unfold critique_interview_answer. split.
  - intros data. destruct llm_reply as [raw|e]; cbn.
    2:{ split; [discriminate|]. by intros (raw & [=] & _). }
    destruct (json_loads raw) as [d|e] eqn:Ej; cbn.
    2:{ split; [discriminate|]. intros (raw' & [= <-] & E & _). congruence. }
    destruct (py_in "scores" d) as [[]|e] eqn:Es; cbn;
      [destruct (py_in "improved_answer" d) as [[]|e] eqn:Ei; cbn|..];
      (split; [intros [= <-]; by exists raw
              |intros (raw' & [= <-] & E & E1 & E2); congruence]).
  - intros s. destruct llm_reply as [raw|e]; cbn; [|congruence].
    destruct (json_loads raw) as [d|e]; cbn; [|congruence].
    destruct (py_in "scores" d) as [[]|e]; cbn; [|congruence..].
    destruct (py_in "improved_answer" d) as [[]|e]; cbn; congruence.
Qed.

(** ** Finding the brackets *)

Lemma index_of_absent c s : absent c s → index_of c s = None.
Proof.
  unfold absent. induction s as [|d s IH]; [done|]. cbn.
  intros [Hd Hs]%andb_true_iff. apply negb_true_iff in Hd.
  by rewrite Hd, (IH Hs).
Qed.

Lemma index_of_app c pre s :
  absent c pre →
  index_of c (pre ++ s) = (λ i, String.length pre + i)%nat <$> index_of c s.
Proof.
  unfold absent. induction pre as [|d pre IH].
  - intros _. rewrite str_app_nil_l. by destruct (index_of c s).
  - cbn [str_forall]. intros [Hd Hs]%andb_true_iff. apply negb_true_iff in Hd.
    rewrite str_app_cons. cbn [index_of]. rewrite Hd, (IH Hs).
    by destruct (index_of c s).
Qed.

Lemma rindex_of_absent c s : absent c s → rindex_of c s = None.
Proof.
  unfold absent. induction s as [|d s IH]; [done|]. cbn.
  intros [Hd Hs]%andb_true_iff. apply negb_true_iff in Hd.
  by rewrite Hd, (IH Hs).
Qed.

Lemma rindex_of_lt c s i : rindex_of c s = Some i → (i < String.length s)%nat.
Proof.
  revert i. induction s as [|d s IH]; intros i; [done|]. cbn.
  destruct (rindex_of c s) as [j|].
  - intros [= <-]. specialize (IH j eq_refl). lia.
  - destruct (Ascii.eqb c d); intros [= <-]. lia.
Qed.

Lemma rindex_of_app_absent c pre s :
  absent c s → rindex_of c (pre ++ s) = rindex_of c pre.
Proof.
  intros Hs. induction pre as [|d pre IH].
  - rewrite str_app_nil_l. by apply rindex_of_absent.
  - rewrite str_app_cons. cbn. by rewrite IH.
Qed.

Lemma rindex_of_app_found c pre s i :
  rindex_of c s = Some i →
  rindex_of c (pre ++ s) = Some (String.length pre + i)%nat.
Proof.
  intros Hs. induction pre as [|d pre IH]; [done|].
  rewrite str_app_cons. cbn. by rewrite IH.
Qed.

Lemma str_length_app s t :
  String.length (s ++ t) = (String.length s + String.length t)%nat.
Proof.
  induction s as [|c s IH]; [done|]. rewrite str_app_cons. cbn. by rewrite IH.
Qed.

Lemma str_drop_app pre s : str_drop (String.length pre) (pre ++ s) = s.
Proof.
  induction pre as [|c pre IH]; [by destruct s|]. by rewrite str_app_cons.
Qed.

Lemma str_take_app s t : str_take (String.length s) (s ++ t) = s.
Proof.
  induction s as [|c s IH]; [by destruct t|].
  rewrite str_app_cons. cbn. by rewrite IH.
Qed.

Lemma find_first_bracket pre rest :
  absent "["%char pre → find "[" (pre ++ "[" ++ rest) = Z.of_nat (String.length pre).
Proof.
  intros Hpre. unfold find. rewrite index_of_app by done.
  assert (index_of "[" ("[" ++ rest) = Some 0%nat) as -> by reflexivity.
  cbn [fmap option_fmap option_map from_option]. f_equal. lia.
Qed.

Lemma rfind_last_bracket pre post :
  absent "]"%char post → rfind "]" (pre ++ "]" ++ post) = Z.of_nat (String.length pre).
Proof.
  intros Hpost. unfold rfind.
  rewrite (rindex_of_app_found _ _ _ 0%nat).
  - cbn [from_option]. f_equal. lia.
  - rewrite str_app_cons, str_app_nil_l. cbn. by rewrite rindex_of_absent.
Qed.

Section Decoding.

Variable json_loads : string → result json.

(** X18. When the text as a whole does not decode, the part from its
    first ["["] to its last ["]"] is decoded instead (the chatter around
    a JSON list is skipped), and the result is [None] if that part does
    not decode either.  A text that decodes as a whole gives its value,
    a list or not. *)
Theorem safe_json_extract_brackets pre mid post :
  absent "["%char pre → absent "]"%char post →
  _safe_json_extract_list json_loads (pre ++ "[" ++ mid ++ "]" ++ post) =
  match json_loads (pre ++ "[" ++ mid ++ "]" ++ post) with
  | Ok v => v
  | Raise _ => try_except (json_loads ("[" ++ mid ++ "]")) JNull
  end.
Proof.
  intros Hpre Hpost. unfold _safe_json_extract_list.
  destruct (json_loads _) as [v|err]; [done|].
  rewrite find_first_bracket by done.
  replace (pre ++ "[" ++ mid ++ "]" ++ post)
    with ((pre ++ "[" ++ mid) ++ "]" ++ post)
    by (by rewrite !str_app_assoc).
  rewrite rfind_last_bracket by done.
  rewrite !str_length_app. cbn [String.length].
  set (s := Z.of_nat (String.length pre)).
  set (e := Z.of_nat (String.length pre + (1 + String.length mid))).
  assert (Hs : (s =? -1)%Z = false) by (apply Z.eqb_neq; lia).
  assert (He : (e =? -1)%Z = false) by (apply Z.eqb_neq; lia).
  assert (Hgt : (e >? s)%Z = true) by (apply Z.gtb_lt; lia).
  rewrite Hs, He, Hgt. cbn [negb andb].
  unfold slice.
  replace (Z.to_nat s) with (String.length pre) by lia.
  replace (Z.to_nat (e + 1 - s)) with (String.length ("[" ++ mid ++ "]"))
    by (rewrite !str_length_app; cbn [String.length]; lia).
  rewrite !str_app_assoc, str_drop_app.
  rewrite <- !str_app_assoc, str_take_app. by rewrite !str_app_assoc.
Qed.

(** X19. When the text does not decode as a whole and no ["]"] follows
    its first ["["] (no ["["] at all, no ["]"] at all, or every ["]"]
    before the first ["["]), the result is [None]. *)
Theorem safe_json_extract_none pre rest e :
  json_loads (pre ++ rest) = Raise e →
  absent "["%char pre → absent "]"%char rest →
  _safe_json_extract_list json_loads (pre ++ rest) = JNull.
Proof.
  intros Htext Hpre Hrest. unfold _safe_json_extract_list. rewrite Htext.
  unfold find, rfind.
  rewrite index_of_app, rindex_of_app_absent by done.
  destruct (index_of "[" rest) as [i|]; [|done]. cbn [fmap option_fmap option_map from_option].
  destruct (rindex_of "]" pre) as [j|] eqn:Ej; cbn [from_option].
  - apply rindex_of_lt in Ej.
    assert ((Z.of_nat j >? Z.of_nat (String.length pre + i))%Z = false) as ->
      by (rewrite Z.gtb_ltb; apply Z.ltb_ge; lia).
    by rewrite !andb_false_r.
  - by rewrite andb_false_r.
Qed.

End Decoding.

Lemma safe_json_extract_brackets_witness :
  _safe_json_extract_list sample_json_loads
    ("Sure! " ++ "[" ++ (quote ++ "Why this role?" ++ quote) ++ "]" ++ " Good luck.") =
  match sample_json_loads
    ("Sure! " ++ "[" ++ (quote ++ "Why this role?" ++ quote) ++ "]" ++ " Good luck.") with
  | Ok v => v
  | Raise _ =>
      try_except
        (sample_json_loads ("[" ++ (quote ++ "Why this role?" ++ quote) ++ "]")) JNull
  end.
Proof.
  apply (safe_json_extract_brackets sample_json_loads "Sure! "
           (quote ++ "Why this role?" ++ quote) " Good luck.");
    reflexivity.
Defined.

Lemma safe_json_extract_none_witness :
  _safe_json_extract_list sample_json_loads ("] no list here " ++ "[ only an opening") = JNull.
Proof.
  apply (safe_json_extract_none sample_json_loads "] no list here " "[ only an opening"
           ValueError); reflexivity.
Defined.

Example safe_json_extract_ex :
  _safe_json_extract_list sample_json_loads ("Sure! " ++ one_question_json ++ " Good luck.") =
    JList [JStr "Why this role?"] ∧
  _safe_json_extract_list sample_json_loads "null" = JNull ∧
  _safe_json_extract_list sample_json_loads "no brackets" = JNull.
Proof. split_and!; vm_compute; reflexivity. Qed.

(** ** The question lists *)

Lemma py_take_sublist {A} (n : Z) (l : list A) : py_take n l `sublist_of` l.
Proof. unfold py_take. destruct (0 <=? n)%Z; apply sublist_take. Qed.

Lemma py_take_length {A} (n : Z) (l : list A) :
  (0 <= n)%Z → length (py_take n l) = Nat.min (Z.to_nat n) (length l).
Proof.
  intros Hn. unfold py_take. destruct (Z.leb_spec 0 n); [|lia].
  apply length_take.
Qed.

Lemma as_str_list_strs qs : as_str_list (JList (JStr <$> qs)) = Some qs.
Proof. cbn. apply mapM_fmap_Some. done. Qed.

Lemma banks_nodup : NoDup _BEHAVIORAL_QS ∧ NoDup _TECH_QS_GENERAL.
Proof. split; apply (bool_decide_unpack _); vm_compute; exact I. Qed.

Lemma reachable_permutation st :
  reachable st →
  behavioral st ≡ₚ _BEHAVIORAL_QS ∧ technical st ≡ₚ _TECH_QS_GENERAL.
Proof.
  induction 1 as [|st jl reply sh mode n _ [IHb IHt] Hsh]; [done|].
  unfold generate_interview_questions.
  destruct (_ ≫= _) as [[parsed|]|e]; cbn; try done;
    destruct (String.prefix _ _); cbn; by rewrite ?Hsh.
Qed.

Section Questions.

Variable json_loads : string → result json.
Variable llm_reply : result string.
Variable shuffle : list string → list string.

(** X20. For [n >= 0] at most [n] questions are returned, whatever the
    model replies. *)
Theorem generate_at_most_n st mode n :
  (0 <= n)%Z →
  (Z.of_nat (length (generate_interview_questions json_loads llm_reply shuffle st mode n).1)
   <= n)%Z.
Proof.
  intros Hn. unfold generate_interview_questions.
  destruct (_ ≫= _) as [[parsed|]|e]; [|destruct (String.prefix _ _)..]; cbn;
    rewrite py_take_length by done; lia.
Qed.

(** X21. The calls only reorder the two module-level question lists:
    after any number of calls each one still holds its seven questions,
    each once. *)
Theorem question_banks_preserved st :
  reachable st →
  behavioral st ≡ₚ _BEHAVIORAL_QS ∧ technical st ≡ₚ _TECH_QS_GENERAL ∧
  NoDup (behavioral st) ∧ NoDup (technical st).
Proof.
  intros [Hb Ht]%reachable_permutation. destruct banks_nodup as [Nb Nt].
  split_and!; [done|done|by rewrite Hb|by rewrite Ht].
Qed.

(** X22. When the model cannot be reached, the call returns distinct
    questions of one list, the behavioural one when the lower-cased mode
    starts with ["behav"] and the technical one for every other mode:
    [n] of them for [0 <= n <= 7], all seven for a larger [n]. *)
Theorem generate_fallback st mode n e :
  reachable st → (∀ l, shuffle l ≡ₚ l) → llm_reply = Raise e → (0 <= n)%Z →
  let qs := (generate_interview_questions json_loads llm_reply shuffle st mode n).1 in
  NoDup qs ∧ qs ⊆ bank_of mode ∧ length qs = Nat.min (Z.to_nat n) 7.
Proof.
  intros Hst Hsh -> Hn.
  destruct (reachable_permutation st Hst) as [Hb Ht].
  destruct banks_nodup as [Nb Nt].
  unfold generate_interview_questions, bank_of. cbn.
  destruct (String.prefix _ _); cbn.
  - split_and!.
    + eapply sublist_NoDup; [|apply py_take_sublist]. by rewrite Hsh, ?Hb, ?Ht.
    + etrans; [apply sublist_subseteq, py_take_sublist|]. by rewrite Hsh, Hb.
    + rewrite py_take_length by done. by rewrite Hsh, Hb.
  - split_and!.
    + eapply sublist_NoDup; [|apply py_take_sublist]. by rewrite Hsh, ?Hb, ?Ht.
    + etrans; [apply sublist_subseteq, py_take_sublist|]. by rewrite Hsh, Ht.
    + rewrite py_take_length by done. by rewrite Hsh, Ht.
Qed.

(** X23. When the model replies with a JSON list of strings, its first
    [n] items are returned as they are (none when the list is empty)
    and the question lists are left untouched. *)
Theorem generate_from_model st mode n raw qs :
  llm_reply = Ok raw → json_loads raw = Ok (JList (JStr <$> qs)) →
  generate_interview_questions json_loads llm_reply shuffle st mode n =
  (py_take n qs, st).
Proof.
  intros -> Hraw. unfold generate_interview_questions, _safe_json_extract_list.
  cbn. by rewrite Hraw, as_str_list_strs.
Qed.

End Questions.

Lemma generate_at_most_n_witness :
  (Z.of_nat (length (generate_interview_questions sample_json_loads
                       (Raise OtherException) reverse initial_banks "Technical" 3).1)
   <= 3)%Z.
Proof.
  apply (generate_at_most_n sample_json_loads (Raise OtherException) reverse
           initial_banks "Technical" 3).
  lia.
Defined.

Lemma question_banks_preserved_witness :
  let st := (generate_interview_questions sample_json_loads
               (Raise OtherException) reverse initial_banks "Behavioral" 5).2 in
  behavioral st ≡ₚ _BEHAVIORAL_QS ∧ technical st ≡ₚ _TECH_QS_GENERAL ∧
  NoDup (behavioral st) ∧ NoDup (technical st).
Proof.
  apply (question_banks_preserved
           (generate_interview_questions sample_json_loads
              (Raise OtherException) reverse initial_banks "Behavioral" 5).2).
  apply reachable_call; [apply reachable_initial|].
  intros l. apply reverse_Permutation.
Defined.

Lemma generate_fallback_witness :
  let qs := (generate_interview_questions sample_json_loads
               (Raise OtherException) reverse initial_banks "Aptitude" 5).1 in
  NoDup qs ∧ qs ⊆ bank_of "Aptitude" ∧ length qs = Nat.min (Z.to_nat 5) 7.
Proof.
  apply (generate_fallback sample_json_loads (Raise OtherException) reverse
           initial_banks "Aptitude" 5 OtherException).
  - apply reachable_initial.
  - intros l. apply reverse_Permutation.
  - reflexivity.
  - lia.
Defined.

Lemma generate_from_model_witness :
  generate_interview_questions sample_json_loads (Ok one_question_json) reverse
    initial_banks "Behavioral" 5 =
  (py_take 5 ["Why this role?"], initial_banks).
Proof.
  apply (generate_from_model sample_json_loads (Ok one_question_json) reverse
           initial_banks "Behavioral" 5 one_question_json ["Why this role?"]);
    reflexivity.
Defined.

Example generate_ex :
  (generate_interview_questions sample_json_loads (Raise OtherException) reverse
     initial_banks "Aptitude" 2).1 =
    [ "What is the difference between multiprocessing and multithreading in Python?";
      "How do you handle memory leaks in Python? Give examples/tools." ] ∧
  (generate_interview_questions sample_json_loads (Ok "[]") reverse
     initial_banks "Behavioral" 5).1 = [] ∧
  py_take (-1) [1; 2; 3] = [1; 2].
Proof. split_and!; vm_compute; reflexivity. Qed.

Example heuristic_scores_ex :
  heuristic_scores "" = Scores 2 2 3 3 3 ∧
  heuristic_scores "Situation: 3 outages. Task, action and RESULT followed." =
    Scores 2 5 4 4 3.
Proof. split; vm_compute; reflexivity. Qed.

(** ** The practice session *)

Section SessionFacts.

Variable json_loads : string → result json.
Variable hard_fallback : list string.

Lemma session_ok_fresh qs bs : session_ok ({| questions := qs; idx := 0; records := [] |}, bs).
Proof.
  split; cbn.
  - destruct qs; [by left|right; cbn; lia].
  - intros q a fb Hin. by apply elem_of_nil in Hin.
Qed.

Lemma session_ok_run st ev :
  session_ok st → session_ok (coach_run json_loads hard_fallback st ev).
Proof.
  destruct st as [c b]. intros Hok. pose proof Hok as [Hidx Hrec].
  cbn [fst snd] in Hidx, Hrec. unfold coach_run. cbn [fst snd].
  destruct ev as [|reply sh mode num_q| |answer reply|];
    try apply session_ok_fresh;
    (destruct (questions c) as [|q0 qs] eqn:Eqs; [exact Hok|]);
    rewrite <- Eqs in *;
    (destruct (item (questions c) (idx c)) as [q|e] eqn:Eq; [|exact Hok]).
  - exact Hok.
  - apply session_ok_fresh.
  - destruct (negb _); [|exact Hok].
    split; cbn [fst questions idx records]; [exact Hidx|].
    intros q' a fb [Hin|Hin%list_elem_of_singleton]%elem_of_app.
    + exact (Hrec _ _ _ Hin).
    + injection Hin as -> -> ->. exists (idx c). split; [done|].
      unfold item in Eq. by destruct (questions c !! idx c); simplify_eq.
  - destruct (Z.ltb_spec (Z.of_nat (idx c))
                (Z.of_nat (length (questions c)) - 1)) as [Hlt|_]; [|exact Hok].
    split; cbn [fst questions idx records]; [right; lia|].
    intros q' a fb Hin. destruct (Hrec q' a fb Hin) as (i & Hi & Hi').
    exists i. split; [lia|done].
Qed.

Lemma session_invariant st :
  session json_loads hard_fallback st → session_ok st.
Proof.
  induction 1 as [|st ev _ IH]; [apply session_ok_fresh|].
  by apply session_ok_run.
Qed.

Lemma session_ok_item st :
  session_ok st → questions st.1 ≠ [] →
  ∃ q, item (questions st.1) (idx st.1) = Ok q.
Proof.
  intros [[?|Hidx] _] Hne; [done|]. unfold item.
  destruct (lookup_lt_is_Some_2 _ _ Hidx) as [q ->]. by exists q.
Qed.

Lemma session_ok_no_questions st :
  session_ok st → questions st.1 = [] → records st.1 = [].
Proof.
  intros [_ Hrec] Eqs. destruct (records st.1) as [|[[q a] fb] rs]; [done|].
  destruct (Hrec q a fb) as (i & _ & Hi); [apply elem_of_cons; by left|].
  by rewrite Eqs in Hi.
Qed.

(** X24. In every state a practice session can reach, the index of the
    question on display is within the list of questions whenever there
    are questions, so the lookup [qs[idx]] of lines 279, 303 and 306
    never raises an [IndexError]. *)
Theorem session_index_in_range st :
  session json_loads hard_fallback st →
  questions st.1 ≠ [] →
  (idx st.1 < length (questions st.1))%nat ∧
  ∃ q, item (questions st.1) (idx st.1) = Ok q.
Proof.
  intros Hok%session_invariant Hne. split.
  - by destruct Hok as [[?|Hidx] _].
  - by apply session_ok_item.
Qed.

(** X25. The practice log only holds questions of the current list that
    were already on display: each record is about a question at an index
    not beyond the current one.  Generating questions empties the log,
    and so does restarting. *)
Theorem session_records_shown st :
  session json_loads hard_fallback st →
  (∀ q a fb, (q, a, fb) ∈ records st.1 →
     ∃ i, (i ≤ idx st.1)%nat ∧ questions st.1 !! i = Some q) ∧
  (∀ llm_reply shuffle mode num_q,
     records (coach_run json_loads hard_fallback st
                (Generate llm_reply shuffle mode num_q)).1 = []) ∧
  records (coach_run json_loads hard_fallback st Restart).1 = [].
Proof.
  intros Hok%session_invariant. split_and!.
  - by destruct Hok.
  - reflexivity.
  - unfold coach_run.
    destruct (questions st.1) as [|q0 qs] eqn:Eqs.
    + by apply session_ok_no_questions.
    + destruct (session_ok_item st Hok) as [q Hq]; [by rewrite Eqs|].
      rewrite Eqs in Hq. by rewrite Hq.
Qed.

End SessionFacts.

Lemma session_index_in_range_witness :
  let st := coach_run sample_json_loads [] (new_coach, initial_banks)
              (Generate (Raise OtherException) reverse "Behavioral" 3) in
  (idx st.1 < length (questions st.1))%nat ∧
  ∃ q, item (questions st.1) (idx st.1) = Ok q.
Proof.
  apply (session_index_in_range sample_json_loads []
           (coach_run sample_json_loads [] (new_coach, initial_banks)
              (Generate (Raise OtherException) reverse "Behavioral" 3))).
  - apply session_run, session_start.
  - discriminate.
Defined.

Lemma session_records_shown_witness :
  let st := coach_run sample_json_loads []
              (coach_run sample_json_loads [] (new_coach, initial_banks)
                 (Generate (Raise OtherException) reverse "Behavioral" 3))
              (GetFeedback "I ranked the tasks by impact." (Raise OtherException)) in
  (∀ q a fb, (q, a, fb) ∈ records st.1 →
     ∃ i, (i ≤ idx st.1)%nat ∧ questions st.1 !! i = Some q) ∧
  (∀ llm_reply shuffle mode num_q,
     records (coach_run sample_json_loads [] st
                (Generate llm_reply shuffle mode num_q)).1 = []) ∧
  records (coach_run sample_json_loads [] st Restart).1 = [].
Proof.
  apply (session_records_shown sample_json_loads []
           (coach_run sample_json_loads []
              (coach_run sample_json_loads [] (new_coach, initial_banks)
                 (Generate (Raise OtherException) reverse "Behavioral" 3))
              (GetFeedback "I ranked the tasks by impact." (Raise OtherException)))).
  apply session_run, session_run, session_start.
Defined.

Example session_ex :
  let st := coach_run sample_json_loads []
              (coach_run sample_json_loads [] (new_coach, initial_banks)
                 (Generate (Raise OtherException) reverse "Behavioral" 3))
              (GetFeedback "I ranked the tasks by impact." (Raise OtherException)) in
  questions st.1 = take 3 (reverse _BEHAVIORAL_QS) ∧
  idx st.1 = 0%nat ∧
  records st.1 =
    [("Tell me about a time you prioritized tasks with limited resources.",
      "I ranked the tasks by impact.",
      HeuristicFeedback (Scores 2 3 3 3 3))] ∧
  idx (coach_run sample_json_loads []
         (coach_run sample_json_loads []
            (coach_run sample_json_loads [] st NextQuestion) NextQuestion)
         NextQuestion).1 = 2%nat.
Proof. split_and!; vm_compute; reflexivity. Qed.
